(** * EventEmitter: a shallow embedding of [event_emitter/event_emitter.py]

    The Python class keeps two instance attributes, [strict] and
    [listeners]; [listen] registers callables under an event name and the
    two [emit_*] coroutines dispatch to them.  The instance is modelled by
    its attribute dictionary, so that an attribute that was never assigned
    is looked up and missed the way Python misses it. *)

From Stdlib Require Import ZArith.
From stdpp Require Import gmap strings list fin_maps.

Module EventEmitter.

(** ** Values, exceptions and listeners *)

(** Payload values handed to the listeners through [*args] / [**kwargs]. *)
Inductive PyVal :=
| PyNone
| PyBool (b : bool)
| PyInt (z : Z)
| PyStr (s : string).

Record Args := mkArgs {
  positional : list PyVal;
  keywords : list (string * PyVal)
}.

(** Exceptions.  [AttributeError owner attr] is what Python raises when
    [attr] is read on an object of class [owner] that lacks it.
    [StrictModeViolation] is the error of a strict synchronous emission
    (a [RuntimeError] in the docstring of [emit_sync]); it carries the event
    name and the identity of the listener.  [Raised] stands for any
    exception thrown by the body of a listener. *)
Inductive Exn :=
| AttributeError (owner attr : string)
| StrictModeViolation (event : string) (listener : nat)
| Raised (kind msg : string).

Inductive Outcome :=
| Returns (v : PyVal)
| Raises (e : Exn).

(** A listener is a Python callable: [lid] is its identity ([id(func)]),
    [iscoroutinefunction] is the answer of [asyncio.iscoroutinefunction],
    and [body] is what running it to completion on an argument bundle
    produces.  The outcome depends on the arguments alone: a state of the
    listener's own, and a listener that calls back into the emitter, are
    not modelled. *)
Record Listener := mkListener {
  lid : nat;
  iscoroutinefunction : bool;
  body : Args -> Outcome
}.

(** What an emission does that its caller can observe, in order. *)
Inductive Effect :=
| Call (listener : Listener) (args : Args)   (* a plain call of the listener *)
| Await (listener : Listener) (args : Args)  (* an awaited call of the listener *)
| Warn (event : string) (listener : Listener).

(** ** The instance *)

Inductive Attr :=
| ABool (b : bool)
| ADict (d : gmap string (list Listener)).

(** The [__dict__] of an [EventEmitter] instance. *)
Abbreviation Obj := (gmap string Attr).

Definition getattr (self : Obj) (name : string) : Exn + Attr :=
  match self !! name with
  | Some v => inr v
  | None => inl (AttributeError "EventEmitter" name)
  end.

(** [self.name = v] for an ordinary attribute name, one that the assignment
    stores as an entry of the instance dictionary, as [strict], [listeners]
    and [_listeners] are; [__dict__] and [__class__] are no such names. *)
Definition setattr (self : Obj) (name : string) (v : Attr) : Obj :=
  <[name := v]> self.

(** [d.get(key, dflt)]; a [bool] has no [get]. *)
Definition dict_get (v : Attr) (key : string) (dflt : list Listener)
  : Exn + list Listener :=
  match v with
  | ADict d => inr (default dflt (d !! key))
  | ABool _ => inl (AttributeError "bool" "get")
  end.

(** ** Emissions: a trace of effects and a result *)

Definition Run (A : Type) : Type := list Effect * (Exn + A).

Definition ret {A} (a : A) : Run A := ([], inr a).
Definition raise {A} (e : Exn) : Run A := ([], inl e).
Definition tell (ev : Effect) : Run unit := ([ev], inr tt).
Definition lift {A} (r : Exn + A) : Run A := ([], r).

Definition bind {A B} (m : Run A) (k : A -> Run B) : Run B :=
  match m with
  | (t, inl e) => (t, inl e)
  | (t, inr a) => let '(t', r) := k a in (t ++ t', r)
  end.

Declare Scope run_scope.
Delimit Scope run_scope with run.
Notation "'do' x <- m 'in' k" := (bind m (fun x => k))
  (at level 10, x name, m at level 100, k at level 200) : run_scope.
Notation "m '>>' k" := (bind m (fun _ => k))
  (at level 90, right associativity) : run_scope.
Local Open Scope run_scope.

Definition trace {A} (r : Run A) : list Effect := fst r.
Definition result {A} (r : Run A) : Exn + A := snd r.

(** [for listener in ls: f(listener)] *)
Fixpoint for_each (ls : list Listener) (f : Listener -> Run unit) : Run unit :=
  match ls with
  | [] => ret tt
  | listener :: rest => f listener >> for_each rest f
  end.

(** A plain call of [listener] on the argument bundle, the value returned
    being dropped. *)
Definition call (listener : Listener) (args : Args) : Run unit :=
  tell (Call listener args) >>
  match body listener args with
  | Returns _ => ret tt
  | Raises e => raise e
  end.

(** An awaited call of [listener] on the argument bundle: the caller is
    suspended until the coroutine has run to completion. *)
Definition await (listener : Listener) (args : Args) : Run unit :=
  tell (Await listener args) >>
  match body listener args with
  | Returns _ => ret tt
  | Raises e => raise e
  end.

(** An exception that leaves the body of a coroutine, as the caller of the
    coroutine receives it: Python replaces a [StopIteration] by
    [RuntimeError("coroutine raised StopIteration")], and hands every other
    exception on as it is.  [Raised kind msg] with [kind] equal to
    ["StopIteration"] stands for an instance of [StopIteration] or of a
    subclass of it. *)
Definition is_stop_iteration (e : Exn) : bool :=
  match e with
  | Raised kind _ => String.eqb kind "StopIteration"
  | _ => false
  end.

Definition coroutine_raises (e : Exn) : Exn :=
  if is_stop_iteration e
  then Raised "RuntimeError" "coroutine raised StopIteration"
  else e.

(** The body of an [async def] run to completion by its caller. *)
Definition coroutine {A} (r : Run A) : Run A :=
  (trace r,
   match result r with
   | inl e => inl (coroutine_raises e)
   | inr a => inr a
   end).

(** ** The methods of the class *)

(** [EventEmitter(strict)]; [None] is the call that omits the argument, for
    which the parameter takes its default [True].  The parameter is bound
    but the assignment stores the constant. *)
Definition __init__ (strict : option bool) : Obj :=
  let strict := default true strict in
  let self := setattr ∅ "strict" (ABool true) in
  setattr self "listeners" (ADict ∅).

(** [listen(event)] is the registrar [decorator]; applied to [func] on the
    instance [self] it gives the instance afterwards and the value it
    returns.  [lsrns.append(func)] updates the list stored in the dictionary;
    an absent key and an empty list are both falsy and take the [else]
    branch. *)
Definition listen (event : string) (func : Listener) (self : Obj)
  : Exn + (Obj * Listener) :=
  match getattr self "listeners" with
  | inl e => inl e
  | inr (ABool _) => inl (AttributeError "bool" "get")
  | inr (ADict d) =>
      match d !! event with
      | Some ((_ :: _) as lsrns) =>
          inr (setattr self "listeners" (ADict (<[event := lsrns ++ [func]]> d)), func)
      | _ =>
          inr (setattr self "listeners" (ADict (<[event := [func]]> d)), func)
      end
  end.

(** The body of the loop of [emit_async]. *)
Definition dispatch_async (args : Args) (listener : Listener) : Run unit :=
  if iscoroutinefunction listener then await listener args
  else call listener args.

(** [emit_async] is an [async def] that reads the attribute [_listeners].
    The loop goes over the list found under [event]; listeners here leave
    that list as it is, so that the list at the start of the emission is
    the list the loop sees throughout. *)
Definition emit_async (self : Obj) (event : string) (args : Args) : Run unit :=
  coroutine
    (do registry <- lift (getattr self "_listeners") in
     do ls <- lift (dict_get registry event []) in
     for_each ls (dispatch_async args)).

(** Modelled from the spec: the body of the loop of [emit_sync].  The source
    declares [emit_sync] as an [async def] taking the event and an argument
    bundle and stops inside its docstring, so the per-listener state machine
    of the specification is followed: a synchronous listener is invoked and
    its result dropped; an asynchronous one makes a strict emitter fail with
    [StrictModeViolation] naming the event and the listener, without
    invoking it, and a non-strict emitter skip it with one warning; a
    listener that raises ends the emission with its own error.  The
    specification has [strict] a boolean; an attribute that is not [True]
    is taken as not strict. *)
Definition dispatch_sync (self : Obj) (event : string) (args : Args)
    (listener : Listener) : Run unit :=
  if iscoroutinefunction listener then
    do strict <- lift (getattr self "strict") in
    match strict with
    | ABool true => raise (StrictModeViolation event (lid listener))
    | _ => tell (Warn event listener)
    end
  else call listener args.

(** Modelled from the spec: [emit_sync], whose body is not in the source;
    it walks the listeners registered under [event] in the attribute
    [listeners], the registry that [__init__] creates and [listen] fills. *)
Definition emit_sync (self : Obj) (event : string) (args : Args) : Run unit :=
  do registry <- lift (getattr self "listeners") in
  do ls <- lift (dict_get registry event []) in
  for_each ls (dispatch_sync self event args).

(** ** Emitters that the class can build *)

(** The listeners found under [event] in the dictionary held by the
    attribute [attr], as [.get(event, [])] sees them. *)
Definition listeners_in (attr : string) (self : Obj) (event : string)
  : list Listener :=
  match self !! attr with
  | Some (ADict d) => default [] (d !! event)
  | _ => []
  end.

(** The listeners registered under [event]. *)
Definition registered (self : Obj) (event : string) : list Listener :=
  listeners_in "listeners" self event.

(** Registrations applied one after the other, the first of the list first. *)
Fixpoint listen_all (regs : list (string * Listener)) (self : Obj) : Exn + Obj :=
  match regs with
  | [] => inr self
  | (event, func) :: rest =>
      match listen event func self with
      | inl e => inl e
      | inr (self', _) => listen_all rest self'
      end
  end.

Inductive reachable : Obj -> Prop :=
| reachable_init strict : reachable (__init__ strict)
| reachable_listen self event func self' r :
    reachable self ->
    listen event func self = inr (self', r) ->
    reachable self'.

(** The listeners registered under [event] by a list of registrations, in
    the order of the registrations and with repetitions kept. *)
Definition history (event : string) (regs : list (string * Listener))
  : list Listener :=
  (filter (λ r, r.1 = event) regs).*2.

(** What one registration does to the dictionary held by [listeners]. *)
Definition add_listener (event : string) (func : Listener)
    (d : gmap string (list Listener)) : gmap string (list Listener) :=
  <[event := default [] (d !! event) ++ [func]]> d.

(** The dictionary after a list of registrations. *)
Definition add_all (regs : list (string * Listener))
    (d : gmap string (list Listener)) : gmap string (list Listener) :=
  foldl (λ acc r, add_listener r.1 r.2 acc) d regs.

(** Every emitter the class builds holds [strict = True], a dictionary in
    [listeners], and no attribute [_listeners]. *)
Definition well_formed (self : Obj) : Prop :=
  self !! "strict" = Some (ABool true)
  ∧ (∃ d, self !! "listeners" = Some (ADict d))
  ∧ self !! "_listeners" = None.

(** The instance the constructor and a list of registrations arrive at,
    written out. *)
Definition built (strict : option bool) (regs : list (string * Listener)) : Obj :=
  setattr (__init__ strict) "listeners" (ADict (add_all regs ∅)).

(** [self.strict = False], assigned on the instance from outside the class:
    the constructor stores [True] whatever it is given. *)
Definition nonstrict (self : Obj) : Obj := setattr self "strict" (ABool false).

(** [self._listeners = copy.deepcopy(self.listeners)], assigned from outside
    the class: the one way for an instance to carry the attribute that
    [emit_async] reads.  The copy holds the same listeners under the same
    names and shares nothing with the registry, so a later [listen] does
    not show through it. *)
Definition with_private_registry (self : Obj) : Obj :=
  match self !! "listeners" with
  | Some registry => setattr self "_listeners" registry
  | None => self
  end.

(** The emitter built by the constructor and a list of registrations. *)
Definition emitter_with (strict : option bool) (regs : list (string * Listener))
  : Obj :=
  match listen_all regs (__init__ strict) with
  | inr self => self
  | inl _ => __init__ strict
  end.

(** ** Effects of one listener, and what a trace shows *)

(** The one effect of a listener that an asynchronous emission runs. *)
Definition async_effect (args : Args) (l : Listener) : Effect :=
  if iscoroutinefunction l then Await l args else Call l args.

(** The one effect of a listener that a non-strict synchronous emission
    passes. *)
Definition sync_effect (event : string) (args : Args) (l : Listener) : Effect :=
  if iscoroutinefunction l then Warn event l else Call l args.

(** The body of the listener returns on these arguments. *)
Definition returns (args : Args) (l : Listener) : bool :=
  match body l args with
  | Returns _ => true
  | Raises _ => false
  end.

(** A synchronous emission gets past the listener: it is synchronous and
    returns, or it is asynchronous and the emitter is not strict. *)
Definition passes_sync (self : Obj) (args : Args) (l : Listener) : bool :=
  if iscoroutinefunction l then
    match self !! "strict" with
    | Some (ABool false) => true
    | _ => false
    end
  else returns args l.

Definition is_sync (l : Listener) : bool := negb (iscoroutinefunction l).

(** The listeners a trace invoked, plainly or awaited, and those it warned
    about. *)
Definition invoked (t : list Effect) : list Listener :=
  omap (λ ev, match ev with
              | Call l _ | Await l _ => Some l
              | Warn _ _ => None
              end) t.

Definition warned (t : list Effect) : list Listener :=
  omap (λ ev, match ev with
              | Warn _ l => Some l
              | _ => None
              end) t.

(** The effect suspends the caller, and does so on a coroutine function. *)
Definition suspends (ev : Effect) : bool :=
  match ev with
  | Await _ _ => true
  | _ => false
  end.

Definition suspends_on_coroutine_only (ev : Effect) : bool :=
  match ev with
  | Await l _ => iscoroutinefunction l
  | _ => true
  end.

(** ** Sample listeners and emitters *)

Definition noargs : Args := mkArgs [] [].
Definition payload : Args := mkArgs [PyInt 7] [("who"%string, PyStr "me")].

Definition sync_a : Listener := mkListener 1 false (λ _, Returns PyNone).
Definition async_b : Listener := mkListener 2 true (λ _, Returns (PyInt 0)).
Definition sync_c : Listener := mkListener 3 false (λ _, Returns (PyBool true)).
Definition sync_boom : Listener :=
  mkListener 4 false (λ _, Raises (Raised "ValueError" "boom")).

(** ** The registry *)

Section Registry.

Implicit Types (self : Obj) (d : gmap string (list Listener)).
Implicit Types (event : string) (func : Listener).

Lemma listen_dict self d event func :
  self !! "listeners" = Some (ADict d) ->
  listen event func self
  = inr (setattr self "listeners" (ADict (add_listener event func d)), func).
Proof.
  intros Hd. unfold listen, getattr, add_listener. rewrite Hd.
  destruct (d !! event) as [[|x xs]|]; reflexivity.
Qed.

Lemma add_listener_same event func d :
  add_listener event func d !! event = Some (default [] (d !! event) ++ [func]).
Proof. unfold add_listener. apply lookup_insert_eq. Qed.

Lemma add_listener_other event event' func d :
  event ≠ event' ->
  add_listener event func d !! event' = d !! event'.
Proof. intros Hne. unfold add_listener. by rewrite lookup_insert_ne. Qed.

Lemma registered_setattr self d event :
  registered (setattr self "listeners" (ADict d)) event = default [] (d !! event).
Proof. unfold registered, listeners_in, setattr. by rewrite lookup_insert_eq. Qed.

Lemma history_cons event event' func regs :
  history event' ((event, func) :: regs)
  = (if decide (event = event') then [func] else []) ++ history event' regs.
Proof.
  unfold history. rewrite filter_cons. simpl.
  destruct (decide (event = event')); reflexivity.
Qed.

Lemma listen_all_dict regs : forall self d,
  self !! "listeners" = Some (ADict d) ->
  listen_all regs self = inr (setattr self "listeners" (ADict (add_all regs d))).
Proof.
  induction regs as [|[event func] regs IH]; intros self d Hd; simpl.
  - unfold setattr. by rewrite insert_id.
  - rewrite (listen_dict _ _ _ _ Hd).
    rewrite (IH _ (add_listener event func d)).
    + unfold setattr. by rewrite insert_insert_eq.
    + unfold setattr. apply lookup_insert_eq.
Qed.

Lemma add_all_lookup regs : forall d event,
  add_all regs d !! event
  = match history event regs with
    | [] => d !! event
    | ls => Some (default [] (d !! event) ++ ls)
    end.
Proof.
  induction regs as [|[ev func] regs IH]; intros d event; [reflexivity|].
  unfold add_all in *. simpl. rewrite IH, history_cons.
  destruct (decide (ev = event)) as [->|Hne]; simpl.
  - rewrite add_listener_same. simpl.
    destruct (history event regs); simpl; [reflexivity|].
    by rewrite <- app_assoc.
  - by rewrite add_listener_other.
Qed.

Lemma init_well_formed strict : well_formed (__init__ strict).
Proof.
  unfold well_formed, __init__, setattr. repeat split.
  - by eexists.
Qed.

Lemma listen_well_formed self event func self' r :
  well_formed self ->
  listen event func self = inr (self', r) ->
  well_formed self'.
Proof.
  intros (Hs & [d Hd] & Hu) Hl.
  rewrite (listen_dict _ _ _ _ Hd) in Hl. injection Hl as <- <-.
  unfold well_formed, setattr. repeat split.
  - by rewrite lookup_insert_ne.
  - eexists. apply lookup_insert_eq.
  - by rewrite lookup_insert_ne.
Qed.

Lemma reachable_well_formed self : reachable self -> well_formed self.
Proof.
  induction 1 as [strict | self event func self' r _ IH Hl].
  - apply init_well_formed.
  - eapply listen_well_formed; eauto.
Qed.

Lemma listen_all_reachable regs : forall self self',
  reachable self -> listen_all regs self = inr self' -> reachable self'.
Proof.
  induction regs as [|[event func] regs IH]; simpl; intros self self' Hr Hl.
  - by injection Hl as <-.
  - destruct (listen event func self) as [e|[self1 r]] eqn:E; [discriminate|].
    eapply IH; [|exact Hl]. eapply reachable_listen; eauto.
Qed.

Lemma listen_all_built strict regs :
  listen_all regs (__init__ strict) = inr (built strict regs).
Proof. by apply listen_all_dict. Qed.

Lemma registered_built strict regs event :
  registered (built strict regs) event = history event regs.
Proof.
  unfold built. rewrite registered_setattr, add_all_lookup, lookup_empty.
  by destruct (history event regs).
Qed.

Lemma listen_built strict regs event func :
  listen event func (built strict regs)
  = inr (setattr (built strict regs) "listeners"
           (ADict (add_listener event func (add_all regs ∅))), func).
Proof. apply listen_dict. unfold built, setattr. apply lookup_insert_eq. Qed.

Lemma built_reachable strict regs : reachable (built strict regs).
Proof.
  eapply listen_all_reachable; [apply (reachable_init strict)|].
  apply listen_all_built.
Qed.

Lemma getattr_inr self name v : getattr self name = inr v -> self !! name = Some v.
Proof. unfold getattr. destruct (self !! name); by intros [= <-]. Qed.

End Registry.

(** ** Emissions *)

Section Emission.

Implicit Types (self : Obj) (event : string) (args : Args).
Implicit Types (l : Listener) (ls pre post : list Listener).

Lemma bind_lift_inr {A B} (a : A) (k : A -> Run B) :
  bind (lift (inr a)) k = k a.
Proof. unfold bind, lift. by destruct (k a). Qed.

Lemma trace_bind {A B} (m : Run A) (k : A -> Run B) :
  trace (bind m k)
  = trace m ++ match result m with
               | inr a => trace (k a)
               | inl _ => []
               end.
Proof.
  destruct m as [t [e|a]]; simpl.
  - by rewrite app_nil_r.
  - by destruct (k a).
Qed.

(** The loop over a prefix of listeners that each leave one effect and
    complete, followed by whatever the rest does. *)
Lemma for_each_passed (f : Listener -> Run unit) (ev : Listener -> Effect) pre :
  Forall (λ x, f x = ([ev x], inr tt)) pre ->
  forall rest,
    for_each (pre ++ rest) f
    = (map ev pre ++ trace (for_each rest f), result (for_each rest f)).
Proof.
  induction 1 as [|x pre Hx _ IH]; intros rest; simpl.
  - by destruct (for_each rest f).
  - rewrite Hx, IH. reflexivity.
Qed.

Lemma for_each_completes (f : Listener -> Run unit) (ev : Listener -> Effect) ls :
  Forall (λ x, f x = ([ev x], inr tt)) ls ->
  for_each ls f = (map ev ls, inr tt).
Proof.
  intros H. pose proof (for_each_passed f ev ls H []) as E.
  rewrite app_nil_r in E. rewrite E. simpl. by rewrite app_nil_r.
Qed.

Lemma for_each_aborts (f : Listener -> Run unit) (ev : Listener -> Effect)
    pre l post t e :
  Forall (λ x, f x = ([ev x], inr tt)) pre ->
  f l = (t, inl e) ->
  for_each (pre ++ l :: post) f = (map ev pre ++ t, inl e).
Proof.
  intros H Hl. rewrite (for_each_passed f ev pre H). simpl. by rewrite Hl.
Qed.

Lemma for_each_cons_ok (f : Listener -> Run unit) x ls ev :
  f x = ([ev], inr tt) ->
  for_each (x :: ls) f = (ev :: trace (for_each ls f), result (for_each ls f)).
Proof. intros Hx. simpl. rewrite Hx. simpl. by destruct (for_each ls f). Qed.

Lemma for_each_cons_err (f : Listener -> Run unit) x ls t e :
  f x = (t, inl e) -> for_each (x :: ls) f = (t, inl e).
Proof. intros Hx. simpl. by rewrite Hx. Qed.

Lemma for_each_trace_Forall (P : Effect -> Prop) (f : Listener -> Run unit) ls :
  (forall l, Forall P (trace (f l))) ->
  Forall P (trace (for_each ls f)).
Proof.
  intros Hf. induction ls as [|l ls IH]; simpl.
  - constructor.
  - rewrite trace_bind. apply Forall_app. split; [apply Hf|].
    destruct (result (f l)); [constructor | exact IH].
Qed.

(** *** One listener *)

Lemma call_returns l args :
  returns args l = true -> call l args = ([Call l args], inr tt).
Proof. unfold returns, call. by destruct (body l args). Qed.


Lemma dispatch_async_returns l args :
  returns args l = true ->
  dispatch_async args l = ([async_effect args l], inr tt).
Proof.
  unfold returns, dispatch_async, async_effect, await, call.
  by destruct (iscoroutinefunction l), (body l args).
Qed.

Lemma dispatch_async_raises l args e :
  body l args = Raises e ->
  dispatch_async args l = ([async_effect args l], inl e).
Proof.
  unfold dispatch_async, async_effect, await, call.
  intros ->. by destruct (iscoroutinefunction l).
Qed.

Lemma dispatch_sync_passes self event l args :
  passes_sync self args l = true ->
  dispatch_sync self event args l = ([sync_effect event args l], inr tt).
Proof.
  unfold passes_sync, dispatch_sync, sync_effect, getattr.
  destruct (iscoroutinefunction l).
  - destruct (self !! "strict") as [[[|]|]|]; try discriminate. reflexivity.
  - apply call_returns.
Qed.


Lemma dispatch_sync_violation self event l args :
  self !! "strict" = Some (ABool true) ->
  iscoroutinefunction l = true ->
  dispatch_sync self event args l
  = ([], inl (StrictModeViolation event (lid l))).
Proof. unfold dispatch_sync, getattr. by intros -> ->. Qed.

(** *** The two emissions as loops *)

Lemma emit_async_unfold self event args :
  emit_async self event args
  = match self !! "_listeners" with
    | None => ([], inl (AttributeError "EventEmitter" "_listeners"))
    | Some (ABool _) => ([], inl (AttributeError "bool" "get"))
    | Some (ADict d) =>
        coroutine (for_each (default [] (d !! event)) (dispatch_async args))
    end.
Proof.
  unfold emit_async, getattr.
  destruct (self !! "_listeners") as [[b|d]|]; try reflexivity.
  rewrite bind_lift_inr. cbn [dict_get]. by rewrite bind_lift_inr.
Qed.

Lemma trace_coroutine {A} (r : Run A) : trace (coroutine r) = trace r.
Proof. reflexivity. Qed.

Lemma emit_sync_unfold self event args :
  emit_sync self event args
  = match self !! "listeners" with
    | None => ([], inl (AttributeError "EventEmitter" "listeners"))
    | Some (ABool _) => ([], inl (AttributeError "bool" "get"))
    | Some (ADict d) =>
        for_each (default [] (d !! event)) (dispatch_sync self event args)
    end.
Proof.
  unfold emit_sync, getattr.
  destruct (self !! "listeners") as [[b|d]|]; try reflexivity.
  rewrite bind_lift_inr. cbn [dict_get]. by rewrite bind_lift_inr.
Qed.

(** A synchronous emission over a non-empty list of listeners is the loop
    over it. *)
Lemma emit_sync_loop self event args ls :
  registered self event = ls ->
  ls ≠ [] ->
  emit_sync self event args = for_each ls (dispatch_sync self event args).
Proof.
  rewrite emit_sync_unfold. unfold registered, listeners_in.
  destruct (self !! "listeners") as [[b|d]|]; by intros <-.
Qed.

(** On every emitter the class builds, [emit_async] stops at the missing
    attribute: no listener runs. *)
Lemma emit_async_reachable self event args :
  reachable self ->
  emit_async self event args
  = ([], inl (AttributeError "EventEmitter" "_listeners")).
Proof.
  intros Hr. destruct (reachable_well_formed _ Hr) as (_ & _ & Hu).
  rewrite emit_async_unfold. by rewrite Hu.
Qed.

Lemma forallb_Forall_eq {A} (p : A -> bool) (xs : list A) :
  forallb p xs = true -> Forall (λ x, p x = true) xs.
Proof.
  induction xs as [|x xs IH]; simpl; intros H; constructor.
  - by destruct (p x).
  - apply IH. by destruct (p x).
Qed.

Lemma invoked_sync_effect event args ls :
  invoked (map (sync_effect event args) ls) = List.filter is_sync ls.
Proof.
  induction ls as [|l ls IH]; [reflexivity|].
  simpl. unfold invoked in *. simpl. unfold sync_effect at 1, is_sync at 1.
  destruct (iscoroutinefunction l); simpl; by rewrite IH.
Qed.

Lemma warned_sync_effect event args ls :
  warned (map (sync_effect event args) ls) = List.filter iscoroutinefunction ls.
Proof.
  induction ls as [|l ls IH]; [reflexivity|].
  simpl. unfold warned in *. simpl. unfold sync_effect at 1.
  destruct (iscoroutinefunction l); simpl; by rewrite IH.
Qed.

End Emission.

(** ** The constructor *)

(** C10.  Whatever the constructor receives for [strict] -- [True], [False],
    or nothing -- the emitter it builds has [strict] equal to [True]. *)
Theorem init_strict_is_True (strict : option bool) :
  getattr (__init__ strict) "strict" = inr (ABool true).
Proof. destruct strict as [[|]|]; reflexivity. Qed.

(** C1, at [EventEmitter(strict=False)]: the emitter built holds
    [strict = True], not the [False] it was given. *)
Theorem init_drops_strict_False :
  getattr (__init__ (Some false)) "strict" = inr (ABool true)
  ∧ getattr (__init__ (Some false)) "strict" ≠ inr (ABool false).
Proof. split; [reflexivity | discriminate]. Qed.

(** No operation of the class changes [strict] afterwards: [listen] writes
    the attribute [listeners] only. *)
Lemma listen_keeps_strict (self self' : Obj) (event : string) (func r : Listener) :
  listen event func self = inr (self', r) ->
  getattr self' "strict" = getattr self "strict".
Proof.
  unfold listen, getattr at 1.
  destruct (self !! "listeners") as [[b|d]|]; try discriminate.
  destruct (d !! event) as [[|x xs]|]; intros [= <- <-];
    unfold getattr, setattr; by rewrite lookup_insert_ne.
Qed.

(** ** Registration *)

(** C7.  Any list of registrations on a fresh emitter goes through without
    raising, and afterwards the registry holds under every event name
    exactly the listeners registered under it, in the order of registration and with
    repetitions kept; and one more [listen(event)(func)] does not raise,
    puts [func] at the end of the list of [event] (a one-element list when
    there was none) and leaves the list of every other name as it was. *)
Theorem registry_is_registration_history
    (strict : option bool) (regs : list (string * Listener)) :
  ∃ self,
    listen_all regs (__init__ strict) = inr self
    ∧ (∀ event, registered self event = history event regs)
    ∧ (∀ event func, ∃ self',
         listen event func self = inr (self', func)
         ∧ registered self' event = registered self event ++ [func]
         ∧ ∀ event', event' ≠ event ->
             registered self' event' = registered self event').
Proof.
  exists (built strict regs). split; [apply listen_all_built|]. split.
  - apply registered_built.
  - intros event func. eexists. split; [apply listen_built|]. split.
    + rewrite !registered_setattr. by rewrite add_listener_same.
    + intros event' Hne. rewrite !registered_setattr.
      by rewrite add_listener_other.
Qed.

(** C8.  On every emitter built by the constructor and registrations, the
    registrar of [listen(event)] applied to [func] returns [func] itself;
    and on any instance whatever, when the registrar returns, what it
    returns is its argument. *)
Theorem listen_returns_its_argument
    (strict : option bool) (regs : list (string * Listener))
    (event : string) (func : Listener) :
  (∃ self self',
      listen_all regs (__init__ strict) = inr self
      ∧ listen event func self = inr (self', func))
  ∧ (∀ self self' r, listen event func self = inr (self', r) -> r = func).
Proof.
  split.
  - eexists _, _. split; [apply listen_all_built | apply listen_built].
  - intros self self' r. unfold listen.
    destruct (getattr self "listeners") as [e|[b|d]]; try discriminate.
    destruct (d !! event) as [[|x xs]|]; by intros [= _ <-].
Qed.

(** ** Asynchronous emission *)

(** C2.  On the emitter built by the constructor and any list of
    registrations, [emit_async] reads the attribute [_listeners], which no
    method assigns: it raises [AttributeError] and invokes none of the
    listeners registered under the event. *)
Theorem emit_async_invokes_no_listener
    (strict : option bool) (regs : list (string * Listener))
    (event : string) (args : Args) :
  ∃ self,
    listen_all regs (__init__ strict) = inr self
    ∧ registered self event = history event regs
    ∧ emit_async self event args
      = ([], inl (AttributeError "EventEmitter" "_listeners")).
Proof.
  exists (built strict regs). split; [apply listen_all_built|].
  split; [apply registered_built|].
  apply emit_async_reachable, built_reachable.
Qed.

(** The same at one listener: after [listen("x")(sync_a)], the emission of
    ["x"] does not call [sync_a]. *)
Example emit_async_one_listener :
  registered (emitter_with None [("x"%string, sync_a)]) "x" = [sync_a]
  ∧ emit_async (emitter_with None [("x"%string, sync_a)]) "x" payload
    = ([], inl (AttributeError "EventEmitter" "_listeners")).
Proof. split; reflexivity. Qed.

(** C5.  On an emitter the class builds, for an event name without
    listeners, the synchronous emission does nothing and returns, while
    [emit_async] raises [AttributeError] on the attribute [_listeners]. *)
Theorem emit_without_listeners (self : Obj) (event : string) (args : Args) :
  reachable self ->
  registered self event = [] ->
  emit_sync self event args = ([], inr tt)
  ∧ emit_async self event args
    = ([], inl (AttributeError "EventEmitter" "_listeners")).
Proof.
  intros Hr Hnone. split; [|by apply emit_async_reachable].
  destruct (reachable_well_formed _ Hr) as (_ & [d Hd] & _).
  rewrite emit_sync_unfold, Hd.
  unfold registered, listeners_in in Hnone. rewrite Hd in Hnone.
  by rewrite Hnone.
Qed.

Lemma emit_without_listeners_fresh :
  emit_sync (__init__ None) "x" noargs = ([], inr tt)
  ∧ emit_async (__init__ None) "x" noargs
    = ([], inl (AttributeError "EventEmitter" "_listeners")).
Proof.
  apply (emit_without_listeners (__init__ None) "x" noargs).
  - apply reachable_init.
  - reflexivity.
Defined.

(** ** Synchronous emission *)

Lemma passes_sync_strict_prefix self args pre :
  forallb is_sync pre = true ->
  forallb (returns args) pre = true ->
  forallb (passes_sync self args) pre = true.
Proof.
  induction pre as [|x pre IH]; simpl; [done|].
  unfold is_sync at 1, passes_sync at 1.
  destruct (iscoroutinefunction x); simpl; [discriminate|].
  destruct (returns args x); simpl; [exact IH | discriminate].
Qed.

Lemma passes_sync_nonstrict self args ls :
  self !! "strict" = Some (ABool false) ->
  forallb (returns args) (List.filter is_sync ls) = true ->
  forallb (passes_sync self args) ls = true.
Proof.
  intros Hs. induction ls as [|x ls IH]; simpl; [done|].
  unfold is_sync at 1, passes_sync at 1. rewrite Hs.
  destruct (iscoroutinefunction x); simpl; [exact IH|].
  destruct (returns args x); simpl; [exact IH | discriminate].
Qed.

Lemma sync_effect_sync_prefix event args pre :
  forallb is_sync pre = true ->
  map (sync_effect event args) pre = map (λ x, Call x args) pre.
Proof.
  induction pre as [|x pre IH]; simpl; [done|].
  unfold is_sync at 1, sync_effect at 1.
  destruct (iscoroutinefunction x); simpl; [discriminate|].
  intros H. by rewrite IH.
Qed.

Lemma invoked_calls args pre : invoked (map (λ x, Call x args) pre) = pre.
Proof.
  induction pre as [|x pre IH]; [done|].
  change (x :: invoked (map (λ x, Call x args) pre) = x :: pre). by rewrite IH.
Qed.

Lemma dispatch_sync_passed self event args pre :
  forallb (passes_sync self args) pre = true ->
  Forall (λ x, dispatch_sync self event args x
               = ([sync_effect event args x], inr tt)) pre.
Proof.
  intros H. apply forallb_Forall_eq in H.
  eapply Forall_impl; [exact H|]. intros x Hx. by apply dispatch_sync_passes.
Qed.

Lemma dispatch_async_passed args pre :
  forallb (returns args) pre = true ->
  Forall (λ x, dispatch_async args x = ([async_effect args x], inr tt)) pre.
Proof.
  intros H. apply forallb_Forall_eq in H.
  eapply Forall_impl; [exact H|]. intros x Hx. by apply dispatch_async_returns.
Qed.

(** C3, as stated, fails where a synchronous listener registered before the
    asynchronous one raises: on a strict emitter with [sync_boom] and then
    [async_b] under ["x"], the emission ends with the [ValueError] of
    [sync_boom], not with [StrictModeViolation]. *)
Lemma strict_emit_sync_earlier_listener_raises :
  listen_all [("x"%string, sync_boom); ("x"%string, async_b)] (__init__ (Some true))
  = inr (emitter_with (Some true) [("x"%string, sync_boom); ("x"%string, async_b)])
  ∧ getattr (emitter_with (Some true) [("x"%string, sync_boom); ("x"%string, async_b)])
      "strict" = inr (ABool true)
  ∧ registered (emitter_with (Some true) [("x"%string, sync_boom); ("x"%string, async_b)])
      "x" = [sync_boom; async_b]
  ∧ iscoroutinefunction async_b = true
  ∧ emit_sync (emitter_with (Some true) [("x"%string, sync_boom); ("x"%string, async_b)])
      "x" noargs
    = ([Call sync_boom noargs], inl (Raised "ValueError" "boom"))
  ∧ ¬ ∃ listener,
        result (emit_sync
                  (emitter_with (Some true)
                     [("x"%string, sync_boom); ("x"%string, async_b)])
                  "x" noargs)
        = inl (StrictModeViolation "x" listener).
Proof.
  repeat split; try reflexivity.
  intros [listener H]. vm_compute in H. discriminate.
Qed.

(** C3, amended.  On an emitter with [strict = True], let [l] be the first
    asynchronous listener registered under [event].  Provided every listener
    registered before it returns without raising, [emit_sync] invokes those
    listeners, in order, and fails with the [StrictModeViolation] that names
    [event] and [l]; [l] is not invoked. *)
Theorem emit_sync_strict_violation
    (self : Obj) (event : string) (args : Args)
    (pre : list Listener) (l : Listener) (post : list Listener) :
  getattr self "strict" = inr (ABool true) ->
  registered self event = pre ++ l :: post ->
  forallb is_sync pre = true ->
  iscoroutinefunction l = true ->
  forallb (returns args) pre = true ->
  emit_sync self event args
  = (map (λ x, Call x args) pre, inl (StrictModeViolation event (lid l)))
  ∧ l ∉ invoked (trace (emit_sync self event args)).
Proof.
  intros Hstrict Hreg Hsync Hl Hret. apply getattr_inr in Hstrict.
  assert (E : emit_sync self event args
              = (map (λ x, Call x args) pre,
                 inl (StrictModeViolation event (lid l)))).
  { rewrite (emit_sync_loop _ _ _ _ Hreg); [|by destruct pre].
    rewrite (for_each_aborts _ (sync_effect event args) pre l post []
               (StrictModeViolation event (lid l))).
    - by rewrite app_nil_r, sync_effect_sync_prefix.
    - by apply dispatch_sync_passed, passes_sync_strict_prefix.
    - by apply dispatch_sync_violation. }
  split; [exact E|].
  rewrite E. unfold trace. cbn [fst]. rewrite invoked_calls. intros Hin.
  apply forallb_Forall_eq in Hsync. rewrite Forall_forall in Hsync.
  specialize (Hsync _ Hin). unfold is_sync in Hsync. rewrite Hl in Hsync.
  discriminate.
Qed.

Lemma emit_sync_strict_violation_sample :
  emit_sync (emitter_with None
               [("x"%string, sync_a); ("x"%string, async_b); ("x"%string, sync_c)])
    "x" payload
  = ([Call sync_a payload], inl (StrictModeViolation "x" 2))
  ∧ async_b ∉ invoked
      (trace (emit_sync
                (emitter_with None
                   [("x"%string, sync_a); ("x"%string, async_b); ("x"%string, sync_c)])
                "x" payload)).
Proof.
  apply (emit_sync_strict_violation
           (emitter_with None
              [("x"%string, sync_a); ("x"%string, async_b); ("x"%string, sync_c)])
           "x" payload [sync_a] async_b [sync_c]); reflexivity.
Defined.

(** C4, as stated, fails where a synchronous listener raises: on a
    non-strict emitter with [sync_boom], [async_b] and [sync_c] under ["x"],
    the emission ends with the [ValueError] of [sync_boom]; it does not
    return, [sync_c] is not invoked and no warning is given for [async_b]. *)
Lemma nonstrict_emit_sync_listener_raises :
  getattr (nonstrict (emitter_with (Some false)
             [("x"%string, sync_boom); ("x"%string, async_b); ("x"%string, sync_c)]))
    "strict" = inr (ABool false)
  ∧ registered (nonstrict (emitter_with (Some false)
                  [("x"%string, sync_boom); ("x"%string, async_b); ("x"%string, sync_c)]))
      "x" = [sync_boom; async_b; sync_c]
  ∧ emit_sync (nonstrict (emitter_with (Some false)
                 [("x"%string, sync_boom); ("x"%string, async_b); ("x"%string, sync_c)]))
      "x" noargs
    = ([Call sync_boom noargs], inl (Raised "ValueError" "boom"))
  ∧ invoked (trace (emit_sync (nonstrict (emitter_with (Some false)
                      [("x"%string, sync_boom); ("x"%string, async_b);
                       ("x"%string, sync_c)]))
                      "x" noargs))
    = [sync_boom]
  ∧ warned (trace (emit_sync (nonstrict (emitter_with (Some false)
                     [("x"%string, sync_boom); ("x"%string, async_b);
                      ("x"%string, sync_c)]))
                     "x" noargs))
    = [].
Proof. repeat split; reflexivity. Qed.

(** C4, amended.  On an emitter with [strict = False], provided every
    synchronous listener registered under [event] returns without raising,
    [emit_sync] returns normally after going through the listeners in
    registration order, calling each synchronous one and giving one warning
    for each asynchronous one in its place: the listeners invoked are the
    synchronous ones, in order, and the listeners warned about are the
    asynchronous ones, once each. *)
Theorem emit_sync_nonstrict_skips
    (self : Obj) (event : string) (args : Args)
    (d : gmap string (list Listener)) :
  getattr self "strict" = inr (ABool false) ->
  getattr self "listeners" = inr (ADict d) ->
  forallb (returns args) (List.filter is_sync (registered self event)) = true ->
  emit_sync self event args
  = (map (sync_effect event args) (registered self event), inr tt)
  ∧ invoked (trace (emit_sync self event args))
    = List.filter is_sync (registered self event)
  ∧ warned (trace (emit_sync self event args))
    = List.filter iscoroutinefunction (registered self event).
Proof.
  intros Hstrict Hd Hret.
  apply getattr_inr in Hstrict. apply getattr_inr in Hd.
  assert (E : emit_sync self event args
              = (map (sync_effect event args) (registered self event), inr tt)).
  { rewrite emit_sync_unfold, Hd.
    unfold registered, listeners_in in *. rewrite Hd in *.
    apply for_each_completes, dispatch_sync_passed.
    by apply passes_sync_nonstrict. }
  rewrite E. unfold trace. cbn [fst]. split; [done|]. split.
  - apply invoked_sync_effect.
  - apply warned_sync_effect.
Qed.

Lemma emit_sync_nonstrict_skips_sample :
  emit_sync (nonstrict (emitter_with None
               [("x"%string, sync_a); ("x"%string, async_b); ("x"%string, sync_c)]))
    "x" payload
  = ([Call sync_a payload; Warn "x" async_b; Call sync_c payload], inr tt)
  ∧ invoked (trace (emit_sync (nonstrict (emitter_with None
               [("x"%string, sync_a); ("x"%string, async_b); ("x"%string, sync_c)]))
               "x" payload))
    = [sync_a; sync_c]
  ∧ warned (trace (emit_sync (nonstrict (emitter_with None
               [("x"%string, sync_a); ("x"%string, async_b); ("x"%string, sync_c)]))
               "x" payload))
    = [async_b].
Proof.
  apply (emit_sync_nonstrict_skips
           (nonstrict (emitter_with None
              [("x"%string, sync_a); ("x"%string, async_b); ("x"%string, sync_c)]))
           "x" payload
           (add_all [("x"%string, sync_a); ("x"%string, async_b); ("x"%string, sync_c)] ∅));
    reflexivity.
Defined.

(** ** A listener that raises *)


Lemma invoked_async_cons args x t :
  invoked (async_effect args x :: t) = x :: invoked t.
Proof. unfold async_effect. by destruct (iscoroutinefunction x). Qed.






(** ** Suspension *)

Lemma dispatch_sync_no_suspension self event args l :
  Forall (λ ev, suspends ev = false) (trace (dispatch_sync self event args l)).
Proof.
  unfold dispatch_sync, call, getattr.
  destruct (iscoroutinefunction l).
  - destruct (self !! "strict") as [[[|]|]|]; simpl; repeat constructor.
  - destruct (body l args); simpl; repeat constructor.
Qed.

Lemma dispatch_async_suspension args l :
  Forall (λ ev, suspends_on_coroutine_only ev = true)
    (trace (dispatch_async args l)).
Proof.
  unfold dispatch_async, await, call.
  destruct (iscoroutinefunction l) eqn:E;
    destruct (body l args); simpl; repeat constructor; simpl; exact E.
Qed.

(** C9.  No effect of [emit_sync] suspends the caller, whatever the
    instance, the event and the arguments; and every suspension of
    [emit_async] is the awaited call of a listener that is a coroutine
    function. *)
Theorem emit_sync_never_suspends (self : Obj) (event : string) (args : Args) :
  Forall (λ ev, suspends ev = false) (trace (emit_sync self event args))
  ∧ Forall (λ ev, suspends_on_coroutine_only ev = true)
      (trace (emit_async self event args)).
Proof.
  split.
  - rewrite emit_sync_unfold.
    destruct (self !! "listeners") as [[b|d]|]; try constructor.
    apply for_each_trace_Forall, dispatch_sync_no_suspension.
  - rewrite emit_async_unfold.
    destruct (self !! "_listeners") as [[b|d]|]; try constructor.
    apply for_each_trace_Forall, dispatch_async_suspension.
Qed.

(** An awaited call does occur when the registry is where [emit_async] looks:
    the asynchronous listener is awaited, the synchronous ones are called. *)
Example emit_async_awaits_coroutine :
  emit_async (with_private_registry (emitter_with None
                [("x"%string, sync_a); ("x"%string, async_b); ("x"%string, sync_c)]))
    "x" payload
  = ([Call sync_a payload; Await async_b payload; Call sync_c payload], inr tt).
Proof. reflexivity. Qed.

(** ** Further properties of the constructor and of [listen] *)

(** X1.  On every emitter the class builds, after any registrations, the
    instance has the two attributes [strict] and [listeners] and no other,
    and [strict] is still [True]: [listen] writes [listeners] only. *)
Theorem class_built_attributes (self : Obj) :
  reachable self ->
  dom self = ({["strict"; "listeners"]} : gset string)
  ∧ getattr self "strict" = inr (ABool true).
Proof.
  induction 1 as [strict | self event func self' r Hr [IHd IHs] Hl].
  - split; [|reflexivity].
    unfold __init__, setattr. rewrite !dom_insert_L, dom_empty_L. set_solver.
  - destruct (reachable_well_formed _ Hr) as (_ & [d Hd] & _).
    rewrite (listen_dict _ _ _ _ Hd) in Hl. injection Hl as <- <-.
    unfold setattr, getattr in *. split.
    + rewrite dom_insert_L, IHd. set_solver.
    + by rewrite lookup_insert_ne.
Qed.

Lemma class_built_attributes_sample :
  dom (emitter_with (Some false) [("x"%string, sync_a); ("y"%string, async_b)])
  = ({["strict"; "listeners"]} : gset string)
  ∧ getattr (emitter_with (Some false) [("x"%string, sync_a); ("y"%string, async_b)])
      "strict" = inr (ABool true).
Proof.
  apply (class_built_attributes
           (emitter_with (Some false) [("x"%string, sync_a); ("y"%string, async_b)])).
  apply (listen_all_reachable [("x"%string, sync_a); ("y"%string, async_b)]
           (__init__ (Some false))); [apply reachable_init | reflexivity].
Defined.

(** X2.  After any list of registrations on a fresh emitter, the dictionary
    held by [listeners] has a key for exactly the event names that were
    registered, each with its listeners in registration order; no key holds
    an empty list. *)
Theorem registry_keys_are_registered_names
    (strict : option bool) (regs : list (string * Listener)) :
  ∃ self d,
    listen_all regs (__init__ strict) = inr self
    ∧ self !! "listeners" = Some (ADict d)
    ∧ (∀ event, d !! event = match history event regs with
                             | [] => None
                             | ls => Some ls
                             end)
    ∧ (∀ event ls, d !! event = Some ls -> ls ≠ []).
Proof.
  exists (built strict regs), (add_all regs ∅).
  split; [apply listen_all_built|].
  split; [unfold built, setattr; apply lookup_insert_eq|].
  assert (Hlook : ∀ event, add_all regs ∅ !! event
                           = match history event regs with
                             | [] => None
                             | ls => Some ls
                             end).
  { intros event. rewrite add_all_lookup, lookup_empty.
    by destruct (history event regs). }
  split; [exact Hlook|].
  intros event ls. rewrite Hlook.
  destruct (history event regs); [discriminate|]. by intros [= <-].
Qed.

Lemma history_app event regs1 regs2 :
  history event (regs1 ++ regs2) = history event regs1 ++ history event regs2.
Proof. unfold history. by rewrite filter_app, fmap_app. Qed.

(** Two lists of registrations with the same listeners under every event
    name build the same instance. *)
Lemma built_history_eq strict regs1 regs2 :
  (∀ event, history event regs1 = history event regs2) ->
  built strict regs1 = built strict regs2.
Proof.
  intros H. unfold built. do 2 f_equal. apply map_eq. intros event.
  by rewrite !add_all_lookup, H.
Qed.

(** X3.  Registrations under two different event names commute: after the
    same earlier registrations, registering [func1] under [event1] and then
    [func2] under [event2] builds the same instance as the other order. *)
Theorem registrations_commute
    (strict : option bool) (regs : list (string * Listener))
    (event1 event2 : string) (func1 func2 : Listener) :
  event1 ≠ event2 ->
  listen_all (regs ++ [(event1, func1); (event2, func2)]) (__init__ strict)
  = listen_all (regs ++ [(event2, func2); (event1, func1)]) (__init__ strict).
Proof.
  intros Hne. rewrite !listen_all_built. f_equal.
  apply built_history_eq. intros event. rewrite !history_app. f_equal.
  rewrite !history_cons.
  destruct (decide (event1 = event)) as [E1|E1],
           (decide (event2 = event)) as [E2|E2];
    [congruence | done..].
Qed.

Lemma registrations_commute_sample :
  listen_all ([("x"%string, sync_a)] ++ [("x"%string, sync_c); ("y"%string, async_b)])
    (__init__ None)
  = listen_all ([("x"%string, sync_a)] ++ [("y"%string, async_b); ("x"%string, sync_c)])
      (__init__ None).
Proof.
  apply (registrations_commute None [("x"%string, sync_a)] "x" "y" sync_c async_b).
  discriminate.
Defined.

(** ** Further properties of the loop of [emit_async] *)

(** X4.  On an instance whose attribute [_listeners] holds a dictionary,
    provided that no listener and no other task changes the list found
    under [event] while the emission runs, and that every listener of that
    list returns: [emit_async] goes through all of them once, in order,
    with the arguments of the emission -- awaiting the coroutine functions,
    calling the others -- and returns nothing; an event name that is not a
    key is an emission without effect. *)
Theorem emit_async_loop_completes
    (self : Obj) (event : string) (args : Args)
    (d : gmap string (list Listener)) :
  getattr self "_listeners" = inr (ADict d) ->
  forallb (returns args) (listeners_in "_listeners" self event) = true ->
  emit_async self event args
  = (map (async_effect args) (listeners_in "_listeners" self event), inr tt).
Proof.
  intros Hd Hret. apply getattr_inr in Hd.
  rewrite emit_async_unfold. unfold listeners_in in *. rewrite Hd in *.
  rewrite (for_each_completes _ (async_effect args)); [reflexivity|].
  by apply dispatch_async_passed.
Qed.

Lemma emit_async_loop_completes_sample :
  emit_async (with_private_registry (emitter_with None
                [("x"%string, sync_a); ("x"%string, async_b); ("x"%string, sync_c)]))
    "x" payload
  = ([Call sync_a payload; Await async_b payload; Call sync_c payload], inr tt)
  ∧ emit_async (with_private_registry (emitter_with None
                  [("x"%string, sync_a); ("x"%string, async_b); ("x"%string, sync_c)]))
      "y" payload
    = ([], inr tt).
Proof.
  split.
  - apply (emit_async_loop_completes
             (with_private_registry (emitter_with None
                [("x"%string, sync_a); ("x"%string, async_b); ("x"%string, sync_c)]))
             "x" payload
             (add_all [("x"%string, sync_a); ("x"%string, async_b);
                       ("x"%string, sync_c)] ∅)); reflexivity.
  - apply (emit_async_loop_completes
             (with_private_registry (emitter_with None
                [("x"%string, sync_a); ("x"%string, async_b); ("x"%string, sync_c)]))
             "y" payload
             (add_all [("x"%string, sync_a); ("x"%string, async_b);
                       ("x"%string, sync_c)] ∅)); reflexivity.
Defined.

Lemma trace_pair {A} (t : list Effect) (r : Exn + A) : trace (t, r) = t.
Proof. reflexivity. Qed.

Lemma for_each_async_prefix args ls :
  invoked (trace (for_each ls (dispatch_async args))) `prefix_of` ls
  ∧ trace (for_each ls (dispatch_async args))
    = map (async_effect args) (invoked (trace (for_each ls (dispatch_async args)))).
Proof.
  induction ls as [|x ls [IHp IHt]].
  - split; [apply prefix_nil | reflexivity].
  - destruct (returns args x) eqn:Hx.
    + rewrite (for_each_cons_ok _ _ _ _ (dispatch_async_returns _ _ Hx)).
      rewrite !trace_pair, invoked_async_cons. split.
      * by apply prefix_cons.
      * cbn [map]. by rewrite <- IHt.
    + unfold returns in Hx.
      destruct (body x args) as [v|e] eqn:Hb; [discriminate|].
      rewrite (for_each_cons_err _ _ _ _ _ (dispatch_async_raises _ _ _ Hb)).
      rewrite !trace_pair, invoked_async_cons. split.
      * apply prefix_cons, prefix_nil.
      * reflexivity.
Qed.

(** X5.  Provided that no listener and no other task changes the list found
    under [event] in [_listeners] while the emission runs (the listeners of
    this development cannot): whether or not a listener raises, the
    listeners that [emit_async] invokes are an initial part of that list,
    in its order, and the effects of the emission are their invocations
    with the arguments of the emission, one each and nothing else -- no
    listener of another event, none twice for one entry, none skipped
    before one that runs. *)
Theorem emit_async_invokes_prefix (self : Obj) (event : string) (args : Args) :
  invoked (trace (emit_async self event args))
    `prefix_of` listeners_in "_listeners" self event
  ∧ trace (emit_async self event args)
    = map (async_effect args) (invoked (trace (emit_async self event args))).
Proof.
  rewrite emit_async_unfold. unfold listeners_in.
  destruct (self !! "_listeners") as [[b|d]|];
    try (split; [apply prefix_nil | reflexivity]).
  rewrite trace_coroutine. apply for_each_async_prefix.
Qed.

End EventEmitter.
